(** * Binary search (test-code.py): embedding and verification

    The Python module defines one function, [binary_search(arr, target)], a
    [while] loop over two integer bounds, and a short driver that searches a
    fixed list and prints one line.

    Modelling choices.
    - Python integers are unbounded: the bounds [left], [right] and [mid]
      are in [Z], and [//] by the positive literal 2 is [Z.div] (floor).
    - [arr[i]] is Python list indexing: a negative index counts from the end
      of the list, and an index outside the list raises [IndexError].
    - The elements are of any type [T] with total boolean comparisons [eqb]
      (for [==]) and [ltb] (for [<]); the driver uses integers.
    - The list object is shared with the caller and the console is global:
      both are carried in an explicit [world] that each loop iteration
      passes on, so that the absence of side effects is a statement about
      the code and not about the notation.
    - The [while] loop is defined by well-founded recursion on
      [right + 1 - left]. *)

From Equations Require Import Equations.
From Equations.Prop Require Import Logic.
From Stdlib Require Import ZArith List Lia Bool.
From Stdlib Require Import Ascii String DecimalString.
Import ListNotations.
Local Open Scope Z_scope.

(** ** Results of a call *)

Inductive exn : Type :=
| IndexError.

Inductive result (A : Type) : Type :=
| Ok (a : A)
| Raise (e : exn).
Arguments Ok {A} a.
Arguments Raise {A} e.

(** ** The function *)

Section BinarySearch.
Context {T : Type}.
Variables eqb ltb : T -> T -> bool.

(** What a call can observe or change: the list object that the parameter
    [arr] refers to, and the lines printed so far. *)
Record world : Type := mkWorld { arr : list T; stdout : list string }.

(** [len(l)] *)
Definition len (l : list T) : Z := Z.of_nat (List.length l).

(** [l[i]] for a list [l] and an integer [i]. *)
Definition getitem (l : list T) (i : Z) : result T :=
  let j := if i <? 0 then i + len l else i in
  if (j <? 0) || (len l <=? j) then Raise IndexError
  else match nth_error l (Z.to_nat j) with
       | Some v => Ok v
       | None => Raise IndexError
       end.

(** The state at the head of the loop. *)
Record state : Type := mkState { heap : world; left : Z; right : Z }.

(** What one execution of the loop body does: go round again, or leave
    the function with a value or an exception. *)
Inductive control : Type :=
| Continue (s : state)
| Return (r : result Z) (w : world).

(** Lines 10 to 17: the body of the [while]. *)
Definition loop_body (target : T) (s : state) : control :=
  let mid := (left s + right s) / 2 in
  match getitem (arr (heap s)) mid with
  | Raise e => Return (Raise e) (heap s)
  | Ok v =>
      if eqb v target then Return (Ok mid) (heap s)
      else if ltb v target then Continue (mkState (heap s) (mid + 1) (right s))
      else Continue (mkState (heap s) (left s) (mid - 1))
  end.

(** The loop variant. *)
Definition measure (s : state) : nat := Z.to_nat (right s + 1 - left s).

(** Lines 9 to 19: the [while] loop and the [return -1] after it. *)
Equations? while_loop (target : T) (s : state) : result Z * world
  by wf (measure s) lt :=
  while_loop target s with inspect (left s <=? right s) => {
    | exist _ true Hcond with inspect (loop_body target s) => {
        | exist _ (Continue s') Hbody := while_loop target s';
        | exist _ (Return r w) _ := (r, w) };
    | exist _ false _ := (Ok (-1), heap s) }.
Proof.
  assert (Hle : left s <= right s) by lia.
  assert (left s <= (left s + right s) / 2 <= right s) as Hmid
    by (split; [apply Z.div_le_lower_bound | apply Z.div_le_upper_bound]; lia).
  unfold loop_body in Hbody.
  destruct (getitem _ _) as [v|e]; [|discriminate].
  destruct (eqb v target); [discriminate|].
  destruct (ltb v target); injection Hbody as <-; unfold measure; simpl; lia.
Qed.

(** A call [binary_search(arr, target)] in the world [w], where [arr]
    refers to the list of [w]: line 7, then the loop. *)
Definition binary_search_call (w : world) (target : T) : result Z * world :=
  while_loop target (mkState w 0 (len (arr w) - 1)).

(** The value of a call, for a list given by its contents. *)
Definition binary_search (a : list T) (target : T) : result Z :=
  fst (binary_search_call (mkWorld a []) target).

(** The same loop with a bound on the number of times the body runs;
    [None] when the bound is reached with the condition still true. *)
Fixpoint iter_loop (n : nat) (target : T) (s : state)
  : option (result Z * world) :=
  if left s <=? right s then
    match n with
    | O => None
    | S n' =>
        match loop_body target s with
        | Continue s' => iter_loop n' target s'
        | Return r w => Some (r, w)
        end
    end
  else Some (Ok (-1), heap s).

(** The states in which the loop condition is evaluated during a call in
    the world [w]. *)
Inductive reachable (w : world) (target : T) : state -> Prop :=
| reach_entry : reachable w target (mkState w 0 (len (arr w) - 1))
| reach_iter (s s' : state) :
    reachable w target s ->
    left s <= right s ->
    loop_body target s = Continue s' ->
    reachable w target s'.

(** The loop invariant: the list is the caller's, untouched, and the
    bounds stay inside it. *)
Definition in_bounds (w : world) (s : state) : Prop :=
  heap s = w /\ 0 <= left s /\ right s < len (arr w).

(** Non-decreasing order: no later element is less than an earlier one. *)
Fixpoint is_sorted (l : list T) : bool :=
  match l with
  | [] => true
  | a :: l' => forallb (fun b => negb (ltb b a)) l' && is_sorted l'
  end.

(** [target] equals some element of [l]. *)
Definition contains (l : list T) (target : T) : bool :=
  existsb (fun v => eqb v target) l.
End BinarySearch.

Arguments world : clear implicits.
Arguments state : clear implicits.
Arguments control : clear implicits.
Arguments mkWorld {T} arr stdout.
Arguments mkState {T} heap left right.
Arguments Continue {T} s.
Arguments Return {T} r w.

(** ** The reference algorithm

    The algorithm as the specification words it, over a sequence of
    totally ordered elements given with their three-way comparison. *)

Module Reference.
Section Search.
Context {T : Type}.
Variable compare : T -> T -> comparison.

(** Zero-indexed access; [None] outside the sequence. *)
Definition index (sequence : list T) (i : Z) : option T :=
  if i <? 0 then None else nth_error sequence (Z.to_nat i).

(** [None] stands for a run that looks outside the sequence, for which
    the specification defines nothing. *)
Equations? search_loop (sequence : list T) (target : T) (low high : Z)
  : option Z by wf (Z.to_nat (high + 1 - low)) lt :=
  search_loop sequence target low high with inspect (low <=? high) => {
    | exist _ true Hcond with index sequence ((low + high) / 2) => {
        | None := None;
        | Some v with compare v target => {
            | Eq := Some ((low + high) / 2);
            | Lt := search_loop sequence target ((low + high) / 2 + 1) high;
            | Gt := search_loop sequence target low ((low + high) / 2 - 1) } };
    | exist _ false _ := Some (-1) }.
Proof.
  all: assert (low <= (low + high) / 2 <= high)
    by (split; [apply Z.div_le_lower_bound | apply Z.div_le_upper_bound]; lia);
    lia.
Qed.

Definition search (sequence : list T) (target : T) : option Z :=
  search_loop sequence target 0 (Z.of_nat (List.length sequence) - 1).
End Search.
End Reference.

(** ** The driver *)

Module Driver.
Definition sorted_array : list Z := [1; 3; 5; 7; 9; 11; 13; 15; 17; 19].
Definition target : Z := 7.

(** [str(z)], as an f-string formats an integer. *)
Definition str (z : Z) : string := NilZero.string_of_int (Z.to_int z).

(** Lines 22 to 29, started with [out] already printed: the lines printed
    at the end, or the exception that ended the run. *)
Definition main (out : list string) : result unit * list string :=
  match binary_search_call Z.eqb Z.ltb (mkWorld sorted_array out) target with
  | (Raise e, w) => (Raise e, stdout w)
  | (Ok result, w) =>
      if negb (result =? -1)
      then (Ok tt, stdout w ++
              ["Element " ++ str target ++ " found at index " ++ str result]%string)
      else (Ok tt, stdout w ++
              ["Element " ++ str target ++ " not found in the array"]%string)
  end.
End Driver.

(** * Properties *)

Section Loop.
Context {T : Type}.
Variables eqb ltb : T -> T -> bool.

(** The loop, unfolded once. *)
Lemma while_loop_eq (target : T) (s : state T) :
  while_loop eqb ltb target s =
  if left s <=? right s then
    match loop_body eqb ltb target s with
    | Continue s' => while_loop eqb ltb target s'
    | Return r w => (r, w)
    end
  else (Ok (-1), heap s).
Proof.
  funelim (while_loop eqb ltb target s);
    repeat match goal with
      | E : (left _ <=? right _) = _ |- _ => rewrite E
      | E : loop_body _ _ _ _ = _ |- _ => rewrite E
      end; reflexivity.
Qed.

Lemma mid_between (l r : Z) : l <= r -> l <= (l + r) / 2 <= r.
Proof.
  intros Hle. split.
  - apply Z.div_le_lower_bound; lia.
  - apply Z.div_le_upper_bound; lia.
Qed.

Lemma loop_body_decreases (target : T) (s s' : state T) :
  left s <= right s ->
  loop_body eqb ltb target s = Continue s' ->
  right s' - left s' < right s - left s.
Proof.
  unfold loop_body. intros Hle.
  destruct (getitem _ _) as [v|e]; [|discriminate].
  pose proof (mid_between _ _ Hle) as Hmid.
  destruct (eqb v target); [discriminate|].
  destruct (ltb v target); intros [= <-]; simpl; lia.
Qed.

(** Inside the list, indexing is [nth_error]. *)
Lemma getitem_inside (l : list T) (i : Z) :
  0 <= i < len l ->
  exists v, getitem l i = Ok v /\ nth_error l (Z.to_nat i) = Some v.
Proof.
  intros Hi. unfold getitem.
  destruct (Z.ltb_spec i 0) as [Hneg|_]; [lia|].
  destruct (Z.ltb_spec i 0) as [Hneg|_]; [lia|].
  destruct (Z.leb_spec (len l) i) as [Hbig|_]; [lia|]. simpl.
  destruct (nth_error l (Z.to_nat i)) as [v|] eqn:Hnth.
  - exists v. split; reflexivity.
  - apply nth_error_None in Hnth. unfold len in Hi. lia.
Qed.

(** The invariant rule for the loop: [I] holds at the head of the loop,
    [Q] of whatever the function returns. *)
Lemma while_loop_rule (target : T)
    (I : state T -> Prop) (Q : result Z * world T -> Prop) :
  (forall s, I s -> left s <= right s ->
     match loop_body eqb ltb target s with
     | Continue s' => I s'
     | Return r w => Q (r, w)
     end) ->
  (forall s, I s -> right s < left s -> Q (Ok (-1), heap s)) ->
  forall s, I s -> Q (while_loop eqb ltb target s).
Proof.
  intros Hstep Hexit s.
  remember (measure s) as n eqn:Hn. revert s Hn.
  induction n as [n IH] using lt_wf_ind. intros s -> HI.
  rewrite while_loop_eq.
  destruct (Z.leb_spec (left s) (right s)) as [Hle|Hgt].
  - specialize (Hstep s HI Hle).
    destruct (loop_body eqb ltb target s) as [s'|r w] eqn:Hbody.
    + apply (IH (measure s')); [|reflexivity|assumption].
      apply loop_body_decreases in Hbody; [|assumption].
      unfold measure. lia.
    + assumption.
  - apply Hexit; assumption.
Qed.

(** One iteration from a state that satisfies the invariant. *)
Lemma loop_body_in_bounds (w : world T) (target : T) (s : state T) :
  in_bounds w s -> left s <= right s ->
  let mid := (left s + right s) / 2 in
  exists v,
    0 <= mid < len (arr w) /\
    getitem (arr w) mid = Ok v /\
    nth_error (arr w) (Z.to_nat mid) = Some v /\
    loop_body eqb ltb target s =
      if eqb v target then Return (Ok mid) w
      else if ltb v target then Continue (mkState w (mid + 1) (right s))
      else Continue (mkState w (left s) (mid - 1)).
Proof.
  intros (Hw & Hl & Hr) Hle mid.
  pose proof (mid_between _ _ Hle) as Hmid. fold mid in Hmid.
  assert (Hin : 0 <= mid < len (arr w)) by lia.
  destruct (getitem_inside _ _ Hin) as (v & Hget & Hnth).
  exists v. repeat split; try assumption; try lia.
  unfold loop_body. fold mid. rewrite Hw, Hget. reflexivity.
Qed.

Lemma in_bounds_entry (w : world T) :
  in_bounds w (mkState w 0 (len (arr w) - 1)).
Proof. unfold in_bounds. simpl. repeat split; lia. Qed.

Lemma in_bounds_step (w : world T) (target : T) (s s' : state T) :
  in_bounds w s -> left s <= right s ->
  loop_body eqb ltb target s = Continue s' ->
  in_bounds w s'.
Proof.
  intros Hinv Hle Hbody.
  destruct (loop_body_in_bounds w target s Hinv Hle) as (v & Hmid & _ & _ & Heq).
  rewrite Heq in Hbody. destruct Hinv as (_ & Hl & Hr).
  pose proof (mid_between _ _ Hle).
  destruct (eqb v target); [discriminate|].
  destruct (ltb v target); injection Hbody as <-;
    unfold in_bounds; simpl; repeat split; lia.
Qed.

Lemma reachable_in_bounds (w : world T) (target : T) (s : state T) :
  reachable eqb ltb w target s -> in_bounds w s.
Proof.
  induction 1 as [|s s' _ IH Hle Hbody].
  - apply in_bounds_entry.
  - exact (in_bounds_step w target s s' IH Hle Hbody).
Qed.

(** What a call returns: never an exception, the world as it was, and
    either the sentinel or the index of an element equal to the target. *)
Lemma binary_search_call_sound (w : world T) (target : T) :
  exists i,
    binary_search_call eqb ltb w target = (Ok i, w) /\
    (i = -1 \/
     exists v, 0 <= i < len (arr w) /\
               nth_error (arr w) (Z.to_nat i) = Some v /\
               eqb v target = true).
Proof.
  unfold binary_search_call.
  apply (while_loop_rule target (in_bounds w)
           (fun out => exists i, out = (Ok i, w) /\
              (i = -1 \/
               exists v, 0 <= i < len (arr w) /\
                         nth_error (arr w) (Z.to_nat i) = Some v /\
                         eqb v target = true))).
  - intros s Hinv Hle.
    destruct (loop_body_in_bounds w target s Hinv Hle)
      as (v & Hmid & _ & Hnth & Heq).
    pose proof (in_bounds_step w target s) as Hstep.
    rewrite Heq in Hstep |- *.
    destruct (eqb v target) eqn:Hv.
    + eexists. split; [reflexivity|]. right. exists v. auto.
    + destruct (ltb v target); eapply Hstep; eauto.
  - intros s (Hw & _) _. exists (-1). rewrite Hw. auto.
  - apply in_bounds_entry.
Qed.

(** The bounded loop agrees with the loop once the bound covers the
    variant. *)
Lemma iter_loop_enough (target : T) (n : nat) (s : state T) :
  (measure s <= n)%nat ->
  iter_loop eqb ltb n target s = Some (while_loop eqb ltb target s).
Proof.
  revert s. induction n as [|n IH]; intros s Hn;
    rewrite while_loop_eq; simpl;
    destruct (Z.leb_spec (left s) (right s)) as [Hle|Hgt];
    try reflexivity.
  - unfold measure in Hn. lia.
  - destruct (loop_body eqb ltb target s) as [s'|r w'] eqn:Hbody;
      [|reflexivity].
    apply IH. apply loop_body_decreases in Hbody; [|assumption].
    unfold measure in *. lia.
Qed.

Lemma is_sorted_nth (l : list T) :
  is_sorted ltb l = true ->
  forall (i j : nat) (a b : T),
    (i < j)%nat -> nth_error l i = Some a -> nth_error l j = Some b ->
    ltb b a = false.
Proof.
  induction l as [|h l IH]; intros Hs i j a b Hij Hi Hj.
  - destruct i; discriminate.
  - simpl in Hs. apply andb_prop in Hs as [Hall Hs].
    destruct j as [|j]; [lia|]. simpl in Hj.
    destruct i as [|i].
    + injection Hi as <-.
      rewrite forallb_forall in Hall.
      apply negb_true_iff, Hall. eapply nth_error_In; eassumption.
    + simpl in Hi. apply (IH Hs i j); [lia|assumption|assumption].
Qed.

Lemma contains_nth (l : list T) (x : T) :
  contains eqb l x = true ->
  exists (k : nat) (v : T), nth_error l k = Some v /\ eqb v x = true.
Proof.
  unfold contains. rewrite existsb_exists. intros (v & Hin & Hv).
  apply In_nth_error in Hin as [k Hk]. exists k, v. split; assumption.
Qed.

Lemma not_contains_nth (l : list T) (x : T) (k : nat) (v : T) :
  contains eqb l x = false -> nth_error l k = Some v -> eqb v x = false.
Proof.
  unfold contains. intros Hno Hk.
  destruct (eqb v x) eqn:Hv; [|reflexivity].
  rewrite <- Hno. symmetry. apply existsb_exists.
  exists v. split; [eapply nth_error_In; eassumption|assumption].
Qed.

(** C3. Whatever the list (sorted or not, of any length) and the target,
    each time the loop body runs the index [mid] of the access [arr[mid]]
    satisfies [0 <= mid < len(arr)], so the access yields an element and
    does not raise; and the call returns a value, never an exception. *)
Theorem binary_search_never_raises (w : world T) (target : T) :
  (forall s : state T,
      reachable eqb ltb w target s -> left s <= right s ->
      let mid := (left s + right s) / 2 in
      0 <= mid < len (arr (heap s)) /\
      exists v, getitem (arr (heap s)) mid = Ok v) /\
  (exists i, fst (binary_search_call eqb ltb w target) = Ok i).
Proof.
  split.
  - intros s Hreach Hle mid.
    apply reachable_in_bounds in Hreach.
    destruct (loop_body_in_bounds w target s Hreach Hle)
      as (v & Hmid & Hget & _).
    destruct Hreach as (-> & _). split; [assumption|].
    exists v. assumption.
  - destruct (binary_search_call_sound w target) as (i & -> & _).
    exists i. reflexivity.
Qed.

(** C4. Whatever the list and the target, the call terminates: every
    iteration that does not return makes [right - left] strictly smaller,
    and the loop, allowed to run its body at most [len(arr)] times, ends
    with the result of the call. *)
Theorem binary_search_terminates (w : world T) (target : T) :
  (forall s s' : state T,
      left s <= right s ->
      loop_body eqb ltb target s = Continue s' ->
      right s' - left s' < right s - left s) /\
  iter_loop eqb ltb (List.length (arr w)) target
            (mkState w 0 (len (arr w) - 1))
  = Some (binary_search_call eqb ltb w target).
Proof.
  split.
  - apply loop_body_decreases.
  - apply iter_loop_enough. unfold measure, len. simpl. lia.
Qed.

(** C6. On the empty list the call returns -1 for every target, and the
    loop body never runs: at entry [right] is -1 and [left] is 0, the
    condition is false, and the loop ends with its body allowed to run
    zero times. *)
Theorem binary_search_empty (x : T) :
  binary_search eqb ltb [] x = Ok (-1) /\
  (forall out : list string,
      let s0 := mkState (mkWorld [] out) 0 (len (@nil T) - 1) in
      left s0 = 0 /\ right s0 = -1 /\ (left s0 <=? right s0) = false /\
      iter_loop eqb ltb 0 x s0 = Some (Ok (-1), mkWorld [] out)).
Proof.
  split.
  - unfold binary_search, binary_search_call.
    rewrite while_loop_eq. reflexivity.
  - intros out. repeat split.
Qed.

(** C9. The call is a function of the list and the target and has no
    effect: it leaves the world (the list and the console) as it found
    it, and a second call, made in the world the first one left, returns
    the same as the first. *)
Theorem binary_search_pure (w : world T) (x : T) :
  let (r1, w1) := binary_search_call eqb ltb w x in
  let (r2, w2) := binary_search_call eqb ltb w1 x in
  w1 = w /\ w2 = w /\ r2 = r1.
Proof.
  destruct (binary_search_call_sound w x) as (i & Hcall & _).
  rewrite Hcall, Hcall. repeat split.
Qed.

(** C10. Whatever the list, sorted or not: a result other than -1 is an
    index inside the list, and the element there equals the target. *)
Theorem binary_search_index_valid (arr : list T) (x : T) (r : Z) :
  binary_search eqb ltb arr x = Ok r ->
  r <> -1 ->
  0 <= r < len arr /\ exists v, getitem arr r = Ok v /\ eqb v x = true.
Proof.
  unfold binary_search. intros Hres Hr.
  destruct (binary_search_call_sound (mkWorld arr []) x)
    as (i & Hcall & Hi).
  rewrite Hcall in Hres. injection Hres as <-.
  destruct Hi as [?|(v & Hin & Hnth & Hv)]; [contradiction|].
  simpl in Hin, Hnth. split; [assumption|].
  destruct (getitem_inside arr i Hin) as (v' & Hget & Hnth').
  exists v'. split; [assumption|]. congruence.
Qed.

(** C2. On a sorted list no element of which equals the target, the call
    returns -1. (The proof does not use the order of the list.) *)
Theorem binary_search_absent (arr : list T) (x : T) :
  is_sorted ltb arr = true ->
  contains eqb arr x = false ->
  binary_search eqb ltb arr x = Ok (-1).
Proof.
  intros _ Hno. unfold binary_search.
  destruct (binary_search_call_sound (mkWorld arr []) x)
    as (i & -> & Hi).
  destruct Hi as [->|(v & _ & Hnth & Hv)]; [reflexivity|].
  simpl in Hnth. rewrite (not_contains_nth _ _ _ _ Hno Hnth) in Hv.
  discriminate.
Qed.
End Loop.

(** ** Sorted input *)

Section Ordered.
Context {T : Type}.
Variables eqb ltb : T -> T -> bool.

(** [==] is equality, and of two unequal elements one is less than the
    other. *)
Hypothesis eqb_eq : forall a b : T, eqb a b = true <-> a = b.
Hypothesis ltb_total :
  forall a b : T, eqb a b = false -> ltb a b = false -> ltb b a = true.

(** One iteration keeps an occurrence of the target between the bounds. *)
Lemma loop_body_keeps (arr : list T) (x : T) (out : list string)
    (s : state T) (k : nat) :
  is_sorted ltb arr = true ->
  in_bounds (mkWorld arr out) s ->
  left s <= Z.of_nat k <= right s ->
  nth_error arr k = Some x ->
  match loop_body eqb ltb x s with
  | Continue s' => left s' <= Z.of_nat k <= right s'
  | Return r _ => exists i, r = Ok i /\ 0 <= i < len arr /\
                            nth_error arr (Z.to_nat i) = Some x
  end.
Proof.
  intros Hsorted Hinv Hk Hx.
  assert (Hle : left s <= right s) by lia.
  destruct (loop_body_in_bounds eqb ltb _ x s Hinv Hle)
    as (v & Hmid & _ & Hnth & ->).
  simpl in Hmid, Hnth.
  set (mid := (left s + right s) / 2) in *.
  destruct (eqb v x) eqn:Hv.
  - apply eqb_eq in Hv as ->. exists mid. auto.
  - assert (Hne : Z.of_nat k <> mid).
    { intros Heq. rewrite <- Heq, Nat2Z.id, Hx in Hnth.
      injection Hnth as <-.
      assert (eqb x x = true) by (apply eqb_eq; reflexivity).
      congruence. }
    destruct (ltb v x) eqn:Hlt; simpl.
    + destruct (Z.lt_ge_cases (Z.of_nat k) mid) as [Hbelow|]; [|lia].
      rewrite (is_sorted_nth ltb arr Hsorted k (Z.to_nat mid) x v) in Hlt;
        [discriminate|lia|assumption|assumption].
    + destruct (Z.lt_ge_cases mid (Z.of_nat k)) as [Habove|]; [|lia].
      pose proof (ltb_total v x Hv Hlt) as Hgt.
      rewrite (is_sorted_nth ltb arr Hsorted (Z.to_nat mid) k v x) in Hgt;
        [discriminate|lia|assumption|assumption].
Qed.

(** C1. On a list sorted in non-decreasing order, for a target that
    equals some element, the call returns an index inside the list at
    which the element equals the target. *)
Theorem binary_search_finds (arr : list T) (x : T) :
  is_sorted ltb arr = true ->
  contains eqb arr x = true ->
  exists i v,
    binary_search eqb ltb arr x = Ok i /\
    0 <= i < len arr /\ getitem arr i = Ok v /\ eqb v x = true.
Proof.
  intros Hsorted Hin.
  apply contains_nth in Hin as (k & v & Hk & Hv).
  apply eqb_eq in Hv as ->.
  assert (Hlen : Z.of_nat k < len arr).
  { unfold len. apply Nat2Z.inj_lt, nth_error_Some. congruence. }
  set (w := mkWorld arr []).
  assert (Hgoal : exists i,
             binary_search_call eqb ltb w x = (Ok i, w) /\
             0 <= i < len arr /\ nth_error arr (Z.to_nat i) = Some x).
  { unfold binary_search_call.
    apply (while_loop_rule eqb ltb x
             (fun s => in_bounds w s /\ left s <= Z.of_nat k <= right s)
             (fun res => exists i, res = (Ok i, w) /\ 0 <= i < len arr /\
                           nth_error arr (Z.to_nat i) = Some x)).
    - intros s [Hinv Hbetween] Hle.
      pose proof (loop_body_keeps arr x [] s k Hsorted Hinv Hbetween Hk)
        as Hkeep.
      pose proof (in_bounds_step eqb ltb w x s) as Hstep.
      destruct (loop_body_in_bounds eqb ltb w x s Hinv Hle)
        as (vm & _ & _ & _ & Hbody).
      destruct (loop_body eqb ltb x s) as [s'|r w'] eqn:Hb.
      + split; [apply Hstep; auto|assumption].
      + destruct Hkeep as (i & -> & Hi).
        exists i. split; [|assumption].
        destruct (eqb vm x); [congruence|].
        destruct (ltb vm x); discriminate.
    - intros s [_ Hbetween] Hgt. lia.
    - split; [apply in_bounds_entry|]. simpl. lia. }
  destruct Hgoal as (i & Hcall & Hi & Hnth).
  destruct (getitem_inside arr i Hi) as (v & Hget & Hnth').
  exists i, v. unfold binary_search. fold w. rewrite Hcall.
  repeat split; try assumption; try lia.
  apply eqb_eq. congruence.
Qed.
End Ordered.

(** ** The reference algorithm and the code *)

Section Refinement.
Context {T : Type}.
Variables eqb ltb : T -> T -> bool.
Variable compare : T -> T -> comparison.

(** The code's [==] and [<] are those of the order of the
    specification. *)
Hypothesis eqb_compare : forall a b : T, eqb a b = true <-> compare a b = Eq.
Hypothesis ltb_compare : forall a b : T, ltb a b = true <-> compare a b = Lt.

(** The reference loop, unfolded once. *)
Lemma search_loop_eq (sequence : list T) (target : T) (low high : Z) :
  Reference.search_loop compare sequence target low high =
  if low <=? high then
    let mid := (low + high) / 2 in
    match Reference.index sequence mid with
    | None => None
    | Some v =>
        match compare v target with
        | Eq => Some mid
        | Lt => Reference.search_loop compare sequence target (mid + 1) high
        | Gt => Reference.search_loop compare sequence target low (mid - 1)
        end
    end
  else Some (-1).
Proof.
  funelim (Reference.search_loop compare sequence target low high);
    repeat match goal with
      | E : (_ <=? _) = _ |- _ => rewrite E
      | E : Reference.index _ _ = _ |- _ => rewrite E
      | E : compare _ _ = _ |- _ => rewrite E
      end; reflexivity.
Qed.

Lemma index_inside (sequence : list T) (i : Z) (v : T) :
  0 <= i -> nth_error sequence (Z.to_nat i) = Some v ->
  Reference.index sequence i = Some v.
Proof.
  intros Hi Hnth. unfold Reference.index.
  destruct (Z.ltb_spec i 0); [lia|assumption].
Qed.

(** C5. For every list and target the code computes what the reference
    algorithm of the specification computes: both return the same
    integer. *)
Theorem binary_search_refines (arr : list T) (target : T) :
  exists i,
    binary_search eqb ltb arr target = Ok i /\
    Reference.search compare arr target = Some i.
Proof.
  set (w := mkWorld arr []).
  assert (Hgoal : exists i,
             binary_search_call eqb ltb w target = (Ok i, w) /\
             Reference.search compare arr target = Some i).
  { unfold binary_search_call.
    apply (while_loop_rule eqb ltb target
             (fun s => in_bounds w s /\
                Reference.search_loop compare arr target (left s) (right s)
                = Reference.search compare arr target)
             (fun res => exists i, res = (Ok i, w) /\
                Reference.search compare arr target = Some i)).
    - intros s [Hinv Href] Hle.
      pose proof (fun s' => in_bounds_step eqb ltb w target s s' Hinv Hle) as Hstep.
      destruct (loop_body_in_bounds eqb ltb w target s Hinv Hle)
        as (v & Hmid & _ & Hnth & Hbody).
      rewrite Hbody in Hstep |- *. simpl in Hnth.
      rewrite search_loop_eq in Href.
      destruct (Z.leb_spec (left s) (right s)); [|lia].
      cbv zeta in Href.
      rewrite (index_inside arr _ v) in Href; [|lia|assumption].
      destruct (eqb v target) eqn:Hv.
      + apply eqb_compare in Hv. rewrite Hv in Href.
        eexists. split; [reflexivity|]. symmetry. exact Href.
      + destruct (ltb v target) eqn:Hlt.
        * apply ltb_compare in Hlt. rewrite Hlt in Href.
          split; [apply Hstep; reflexivity|exact Href].
        * destruct (compare v target) eqn:Hc.
          -- apply eqb_compare in Hc. congruence.
          -- apply ltb_compare in Hc. congruence.
          -- split; [apply Hstep; reflexivity|exact Href].
    - intros s [[Hw _] Href] Hgt. rewrite search_loop_eq in Href.
      destruct (Z.leb_spec (left s) (right s)); [lia|].
      exists (-1). rewrite Hw. split; [reflexivity|]. symmetry. exact Href.
    - split; [apply in_bounds_entry|reflexivity]. }
  destruct Hgoal as (i & Hcall & Href).
  exists i. unfold binary_search. fold w. rewrite Hcall. split; auto.
Qed.
End Refinement.

(** ** The list of the driver *)

(** C7. In the driver's list the target 7 is found at index 3, and the
      driver, whatever was printed before, prints
      [Element 7 found at index 3] and nothing else. *)
Theorem driver_finds_7 :
  binary_search Z.eqb Z.ltb Driver.sorted_array 7 = Ok 3 /\
  (forall out : list string,
      Driver.main out = (Ok tt, out ++ ["Element 7 found at index 3"%string])).
Proof.
  split; [reflexivity|]. intros out. reflexivity.
Qed.

(** C8. In the driver's list, the first element 1 is found at index 0 and
      the last element 19 at index 9. *)
Theorem driver_list_ends :
  binary_search Z.eqb Z.ltb Driver.sorted_array 1 = Ok 0 /\
  binary_search Z.eqb Z.ltb Driver.sorted_array 19 = Ok 9.
Proof.
  split; reflexivity.
Qed.

(** ** Instances on integers *)

Lemma Z_ltb_total (a b : Z) : (a =? b) = false -> (a <? b) = false -> (b <? a) = true.
Proof.
  intros Hne Hge. apply Z.eqb_neq in Hne. apply Z.ltb_ge in Hge.
  apply Z.ltb_lt. lia.
Qed.

Lemma Z_eqb_compare (a b : Z) : (a =? b) = true <-> (a ?= b) = Eq.
Proof. rewrite Z.eqb_eq, Z.compare_eq_iff. reflexivity. Qed.

Lemma Z_ltb_compare (a b : Z) : (a <? b) = true <-> (a ?= b) = Lt.
Proof. rewrite Z.ltb_lt, Z.compare_lt_iff. reflexivity. Qed.

(** With duplicates the index returned need not be the first one. *)
Example binary_search_duplicates :
  binary_search Z.eqb Z.ltb [1; 3; 3; 8] 3 = Ok 1 /\
  binary_search Z.eqb Z.ltb [3; 3; 3; 3; 3] 3 = Ok 2.
Proof. split; reflexivity. Qed.

(** On a list out of order a present target can be missed. *)
Example binary_search_unsorted_miss :
  contains Z.eqb [9; 2; 7] 9 = true /\
  binary_search Z.eqb Z.ltb [9; 2; 7] 9 = Ok (-1).
Proof. split; reflexivity. Qed.

Lemma binary_search_finds_witness :
  is_sorted Z.ltb [1; 3; 3; 8] = true /\
  contains Z.eqb [1; 3; 3; 8] 3 = true /\
  exists i v,
    binary_search Z.eqb Z.ltb [1; 3; 3; 8] 3 = Ok i /\
    0 <= i < len [1; 3; 3; 8] /\
    getitem [1; 3; 3; 8] i = Ok v /\ (v =? 3) = true.
Proof.
  split; [reflexivity|]. split; [reflexivity|].
  apply (binary_search_finds Z.eqb Z.ltb Z.eqb_eq Z_ltb_total);
    reflexivity.
Defined.

Lemma binary_search_absent_witness :
  is_sorted Z.ltb [1; 3; 3; 8] = true /\
  contains Z.eqb [1; 3; 3; 8] 4 = false /\
  binary_search Z.eqb Z.ltb [1; 3; 3; 8] 4 = Ok (-1).
Proof.
  split; [reflexivity|]. split; [reflexivity|].
  apply (binary_search_absent Z.eqb Z.ltb); reflexivity.
Defined.

Lemma binary_search_never_raises_witness :
  let w := mkWorld [4; 8] [] in
  let s := mkState w 1 1 in
  reachable Z.eqb Z.ltb w 8 s /\
  left s <= right s /\
  0 <= 1 < len (arr (heap s)) /\
  exists v, getitem (arr (heap s)) 1 = Ok v.
Proof.
  intros w s.
  assert (Hreach : reachable Z.eqb Z.ltb w 8 s).
  { apply (reach_iter Z.eqb Z.ltb w 8 (mkState w 0 1) s).
    - apply (reach_entry Z.eqb Z.ltb w 8).
    - simpl. lia.
    - reflexivity. }
  assert (Hle : left s <= right s) by (simpl; lia).
  split; [exact Hreach|]. split; [exact Hle|].
  exact (proj1 (binary_search_never_raises Z.eqb Z.ltb w 8) s Hreach Hle).
Defined.

Lemma binary_search_terminates_witness :
  let w := mkWorld [4; 8] [] in
  let s := mkState w 0 1 in
  let s' := mkState w 1 1 in
  left s <= right s /\
  loop_body Z.eqb Z.ltb 8 s = Continue s' /\
  right s' - left s' < right s - left s.
Proof.
  intros w s s'.
  assert (Hle : left s <= right s) by (simpl; lia).
  assert (Hbody : loop_body Z.eqb Z.ltb 8 s = Continue s') by reflexivity.
  split; [exact Hle|]. split; [exact Hbody|].
  exact (proj1 (binary_search_terminates Z.eqb Z.ltb w 8) s s' Hle Hbody).
Defined.

Lemma binary_search_index_valid_witness :
  binary_search Z.eqb Z.ltb [9; 2; 7] 2 = Ok 1 /\
  1 <> -1 /\
  0 <= 1 < len [9; 2; 7] /\
  exists v, getitem [9; 2; 7] 1 = Ok v /\ (v =? 2) = true.
Proof.
  assert (Hres : binary_search Z.eqb Z.ltb [9; 2; 7] 2 = Ok 1) by reflexivity.
  assert (Hr : 1 <> -1) by lia.
  split; [exact Hres|]. split; [exact Hr|].
  exact (binary_search_index_valid Z.eqb Z.ltb [9; 2; 7] 2 1 Hres Hr).
Defined.

Lemma binary_search_refines_witness :
  exists i,
    binary_search Z.eqb Z.ltb Driver.sorted_array 4 = Ok i /\
    Reference.search Z.compare Driver.sorted_array 4 = Some i.
Proof.
  exact (binary_search_refines Z.eqb Z.ltb Z.compare
           Z_eqb_compare Z_ltb_compare Driver.sorted_array 4).
Defined.

(** * Further properties of the loop *)

Section Window.
Context {T : Type}.
Variables eqb ltb : T -> T -> bool.

(** X1. Each iteration that goes round again leaves a window
    [left..right] of at most half the size it had. *)
Theorem loop_body_halves (target : T) (s s' : state T) :
  left s <= right s ->
  loop_body eqb ltb target s = Continue s' ->
  right s' - left s' + 1 <= (right s - left s + 1) / 2.
Proof.
  unfold loop_body. intros Hle.
  destruct (getitem _ _) as [v|e]; [|discriminate].
  pose proof (Z.div_mod (left s + right s) 2) as Hdiv.
  pose proof (Z.mod_pos_bound (left s + right s) 2) as Hmod.
  destruct (eqb v target); [discriminate|].
  destruct (ltb v target); intros [= <-]; simpl;
    apply Z.div_le_lower_bound; lia.
Qed.

Lemma loop_body_halves_measure (target : T) (s s' : state T) (n : nat) :
  left s <= right s ->
  loop_body eqb ltb target s = Continue s' ->
  (measure s < 2 ^ S n)%nat ->
  (measure s' < 2 ^ n)%nat.
Proof.
  intros Hle Hbody Hm.
  pose proof (loop_body_halves target s s' Hle Hbody) as Hhalf.
  unfold measure in *. rewrite Nat.pow_succ_r' in Hm.
  remember (2 ^ n)%nat as p eqn:Hp. clear Hp.
  assert ((right s - left s + 1) / 2 < Z.of_nat p)
    by (apply Z.div_lt_upper_bound; lia).
  lia.
Qed.

(** The bounded loop agrees with the loop once two to the bound exceeds
    the size of the window. *)
Lemma iter_loop_log (target : T) (n : nat) (s : state T) :
  (measure s < 2 ^ n)%nat ->
  iter_loop eqb ltb n target s = Some (while_loop eqb ltb target s).
Proof.
  revert s. induction n as [|n IH]; intros s Hn;
    rewrite while_loop_eq; simpl iter_loop;
    destruct (Z.leb_spec (left s) (right s)) as [Hle|Hgt];
    try reflexivity.
  - unfold measure in Hn. simpl in Hn. lia.
  - destruct (loop_body eqb ltb target s) as [s'|r w'] eqn:Hbody;
      [|reflexivity].
    apply IH. exact (loop_body_halves_measure target s s' n Hle Hbody Hn).
Qed.

(** X2. Whatever the list and the target, the loop body runs at most
    [floor(log2(len(arr))) + 1] times: bounded to that many iterations,
    the loop still ends with the result of the call. *)
Theorem binary_search_log_iterations (w : world T) (target : T) :
  iter_loop eqb ltb (S (Nat.log2 (List.length (arr w)))) target
            (mkState w 0 (len (arr w) - 1))
  = Some (binary_search_call eqb ltb w target).
Proof.
  apply iter_loop_log. unfold measure, len. simpl left. simpl right.
  replace (Z.to_nat (Z.of_nat (List.length (arr w)) - 1 + 1 - 0))
    with (List.length (arr w)) by lia.
  destruct (List.length (arr w)) as [|m] eqn:Hlen.
  - simpl. lia.
  - apply Nat.log2_spec. lia.
Qed.

(** X3. On a list of one element the call compares that element once:
    the result is 0 when it equals the target and -1 otherwise, whatever
    [<] says. *)
Theorem binary_search_singleton (a x : T) :
  binary_search eqb ltb [a] x = if eqb a x then Ok 0 else Ok (-1).
Proof.
  unfold binary_search, binary_search_call.
  rewrite while_loop_eq. cbn.
  destruct (eqb a x); [reflexivity|].
  destruct (ltb a x); rewrite while_loop_eq; reflexivity.
Qed.

(** The value of the loop does not depend on the console. *)
Lemma iter_loop_console (target : T) (out : list string) (n : nat)
    (s : state T) :
  option_map fst (iter_loop eqb ltb n target s) =
  option_map fst (iter_loop eqb ltb n target
                    (mkState (mkWorld (arr (heap s)) out) (left s) (right s))).
Proof.
  revert s. induction n as [|n IH]; intros s; simpl;
    destruct (left s <=? right s); try reflexivity.
  unfold loop_body. simpl.
  destruct (getitem (arr (heap s)) ((left s + right s) / 2)) as [v|e];
    [|reflexivity].
  destruct (eqb v target); [reflexivity|].
  destruct (ltb v target); apply IH.
Qed.

(** X4. A call in any world returns what [binary_search] returns on the
    list of that world, and leaves the world as it was: the lines already
    printed have no influence on the result. *)
Theorem binary_search_call_frame (w : world T) (target : T) :
  binary_search_call eqb ltb w target
  = (binary_search eqb ltb (arr w) target, w).
Proof.
  destruct (binary_search_call_sound eqb ltb w target) as (i & Hcall & _).
  rewrite Hcall. f_equal. unfold binary_search.
  pose proof (iter_loop_console target [] (List.length (arr w))
                (mkState w 0 (len (arr w) - 1))) as Hsame.
  rewrite !iter_loop_enough in Hsame
    by (unfold measure, len; simpl; lia).
  simpl in Hsame. fold (binary_search_call eqb ltb w target) in Hsame.
  rewrite Hcall in Hsame. simpl in Hsame.
  change (while_loop eqb ltb target
            (mkState (mkWorld (arr w) []) 0 (len (arr w) - 1)))
    with (binary_search_call eqb ltb (mkWorld (arr w) []) target) in Hsame.
  congruence.
Qed.
End Window.

Section Membership.
Context {T : Type}.
Variables eqb ltb : T -> T -> bool.

Hypothesis eqb_eq : forall a b : T, eqb a b = true <-> a = b.
Hypothesis ltb_total :
  forall a b : T, eqb a b = false -> ltb a b = false -> ltb b a = true.

(** On a sorted list with the target at position [k], the call returns an
    index inside the list at which the target is. *)
Lemma binary_search_occurrence (arr : list T) (x : T) (k : nat) :
  is_sorted ltb arr = true ->
  nth_error arr k = Some x ->
  exists i,
    binary_search eqb ltb arr x = Ok i /\
    0 <= i < len arr /\ nth_error arr (Z.to_nat i) = Some x.
Proof.
  intros Hsorted Hk.
  assert (Hlen : Z.of_nat k < len arr).
  { unfold len. apply Nat2Z.inj_lt, nth_error_Some. congruence. }
  set (w := mkWorld arr []).
  unfold binary_search, binary_search_call. fold w.
  apply (while_loop_rule eqb ltb x
           (fun s => in_bounds w s /\ left s <= Z.of_nat k <= right s)
           (fun res => exists i, fst res = Ok i /\ 0 <= i < len arr /\
                         nth_error arr (Z.to_nat i) = Some x)).
  - intros s [Hinv Hbetween] Hle.
    pose proof (loop_body_keeps eqb ltb eqb_eq ltb_total
                  arr x [] s k Hsorted Hinv Hbetween Hk) as Hkeep.
    pose proof (in_bounds_step eqb ltb w x s) as Hstep.
    destruct (loop_body eqb ltb x s) as [s'|r w'] eqn:Hb.
    + split; [apply Hstep; auto|assumption].
    + destruct Hkeep as (i & -> & Hi). exists i. split; [reflexivity|assumption].
  - intros s [_ Hbetween] Hgt. lia.
  - split; [apply in_bounds_entry|]. simpl. lia.
Qed.

(** X5. On a sorted list the test [result != -1] of the driver decides
    membership: the call returns -1 exactly when no element equals the
    target. *)
Theorem binary_search_decides (arr : list T) (x : T) :
  is_sorted ltb arr = true ->
  (binary_search eqb ltb arr x = Ok (-1) <-> contains eqb arr x = false).
Proof.
  intros Hsorted. split.
  - intros Hres. destruct (contains eqb arr x) eqn:Hin; [|reflexivity].
    apply contains_nth in Hin as (k & v & Hk & Hv).
    apply eqb_eq in Hv as ->.
    destruct (binary_search_occurrence arr x k Hsorted Hk) as (i & Hi & Hpos & _).
    rewrite Hres in Hi. injection Hi as <-. lia.
  - intros Hno. unfold binary_search.
    destruct (binary_search_call_sound eqb ltb (mkWorld arr []) x)
      as (i & -> & Hi).
    destruct Hi as [->|(v & _ & Hnth & Hv)]; [reflexivity|].
    simpl in Hnth. rewrite (not_contains_nth eqb _ _ _ _ Hno Hnth) in Hv.
    discriminate.
Qed.

(** X6. On a sorted list in which the target occurs at position [k] and
    nowhere else, the call returns [k]. *)
Theorem binary_search_unique (arr : list T) (x : T) (k : nat) :
  is_sorted ltb arr = true ->
  nth_error arr k = Some x ->
  (forall j : nat, nth_error arr j = Some x -> j = k) ->
  binary_search eqb ltb arr x = Ok (Z.of_nat k).
Proof.
  intros Hsorted Hk Honly.
  destruct (binary_search_occurrence arr x k Hsorted Hk)
    as (i & -> & Hpos & Hnth).
  apply Honly in Hnth. f_equal. lia.
Qed.
End Membership.

(** The bound of X2 is reached: the driver's list has ten elements, and
    searching it for 20 runs the body four times. *)
Example iterations_bound_reached :
  iter_loop Z.eqb Z.ltb 3 20
    (mkState (mkWorld Driver.sorted_array []) 0 (len Driver.sorted_array - 1))
  = None /\
  iter_loop Z.eqb Z.ltb 4 20
    (mkState (mkWorld Driver.sorted_array []) 0 (len Driver.sorted_array - 1))
  = Some (Ok (-1), mkWorld Driver.sorted_array []).
Proof. split; reflexivity. Qed.

Lemma loop_body_halves_witness :
  let w := mkWorld [4; 8; 15] [] in
  let s := mkState w 0 2 in
  let s' := mkState w 2 2 in
  left s <= right s /\
  loop_body Z.eqb Z.ltb 15 s = Continue s' /\
  right s' - left s' + 1 <= (right s - left s + 1) / 2.
Proof.
  intros w s s'.
  assert (Hle : left s <= right s) by (simpl; lia).
  assert (Hbody : loop_body Z.eqb Z.ltb 15 s = Continue s') by reflexivity.
  split; [exact Hle|]. split; [exact Hbody|].
  exact (loop_body_halves Z.eqb Z.ltb 15 s s' Hle Hbody).
Defined.

Lemma binary_search_decides_witness :
  is_sorted Z.ltb [1; 3; 3; 8] = true /\
  (binary_search Z.eqb Z.ltb [1; 3; 3; 8] 4 = Ok (-1) <->
   contains Z.eqb [1; 3; 3; 8] 4 = false).
Proof.
  split; [reflexivity|].
  apply (binary_search_decides Z.eqb Z.ltb Z.eqb_eq Z_ltb_total).
  reflexivity.
Defined.

Lemma binary_search_unique_witness :
  is_sorted Z.ltb [1; 3; 8] = true /\
  nth_error [1; 3; 8] 2 = Some 8 /\
  binary_search Z.eqb Z.ltb [1; 3; 8] 8 = Ok 2.
Proof.
  split; [reflexivity|]. split; [reflexivity|].
  apply (binary_search_unique Z.eqb Z.ltb Z.eqb_eq Z_ltb_total [1; 3; 8] 8 2).
  - reflexivity.
  - reflexivity.
  - intros [|[|[|[|j]]]] Hj; try discriminate Hj; reflexivity.
Defined.
